(** * ValidatorTS: the fluent string validator of [src/app.ts]

    A shallow embedding of the [StringValidator] class: its rule model, its
    configuration methods (which mutate [this.rules] through [addRule]) and
    its evaluation method [go], followed by the properties of the
    specification that were checked against it. *)

From Stdlib Require Import ZArith String Ascii List Bool Lia DecimalString Permutation.
From Stdlib Require DecimalFacts DecimalPos.
Import ListNotations.

Local Open Scope string_scope.
Local Open Scope Z_scope.

(** ** JavaScript data *)

(** The [number]s that reach the validator as [min], [max] and
    [value.length].  [Finite z] is the integer-valued double [z] (the model
    is meant for the range where integers are exact and printed in plain
    decimal, which covers every string length; [-0] is [Finite 0], from
    which neither [<], [>] nor a template literal tells it apart).  The
    three special values of IEEE arithmetic are kept because the type
    [number] admits them and the comparisons of [checkRule] treat them
    differently.  Doubles with a fractional part are outside the model. *)
Inductive number : Type :=
| Finite (z : Z)
| NaN
| PosInfinity
| NegInfinity.

(** [a < b] on numbers. *)
Definition num_lt (a b : number) : bool :=
  match a, b with
  | NaN, _ | _, NaN => false
  | Finite x, Finite y => x <? y
  | Finite _, PosInfinity => true
  | Finite _, NegInfinity => false
  | PosInfinity, _ => false
  | NegInfinity, NegInfinity => false
  | NegInfinity, _ => true
  end.

(** [a > b] on numbers. *)
Definition num_gt (a b : number) : bool := num_lt b a.

(** What [`${n}`] yields for a number. *)
Definition num_to_string (n : number) : string :=
  match n with
  | Finite z => NilZero.string_of_int (Z.to_int z)
  | NaN => "NaN"
  | PosInfinity => "Infinity"
  | NegInfinity => "-Infinity"
  end.

(** A JavaScript string is a sequence of code units; a [string] here holds
    one code unit per character, [===] is [String.eqb] and [.length] is
    [String.length]. *)
Definition str_length (s : string) : number := Finite (Z.of_nat (String.length s)).

(** The values of type [unknown] that [go] may receive.  Objects, functions
    and symbols are opaque to the validator: only their [typeof] is
    observed, so they carry an identity and nothing else. *)
Inductive JSValue : Type :=
| VUndefined
| VNull
| VBoolean (b : bool)
| VNumber (n : number)
| VBigInt (z : Z)
| VString (s : string)
| VSymbol (id : nat)
| VObject (id : nat)
| VFunction (id : nat).

Definition typeof (v : JSValue) : string :=
  match v with
  | VUndefined => "undefined"
  | VNull => "object"
  | VBoolean _ => "boolean"
  | VNumber _ => "number"
  | VBigInt _ => "bigint"
  | VString _ => "string"
  | VSymbol _ => "symbol"
  | VObject _ => "object"
  | VFunction _ => "function"
  end.

(** ** Results and rules *)

(** [Result<T>]: [{ ok: true, value }] or [{ ok: false, message }]. *)
Inductive Result (T : Type) : Type :=
| Success (value : T)
| Failure (message : string).
Arguments Success {T} value.
Arguments Failure {T} message.

Definition ok {T : Type} (r : Result T) : bool :=
  match r with
  | Success _ => true
  | Failure _ => false
  end.

(** The [type] tags of [StringRule]: the string literals ["equal"],
    ["notEqual"], ["minLength"] and ["maxLength"]. *)
Module Tag.
Inductive t : Type := equal | notEqual | minLength | maxLength.
End Tag.

Definition RuleType : Type := Tag.t.

(** [a === b] on tags. *)
Definition RuleType_eqb (a b : RuleType) : bool :=
  match a, b with
  | Tag.equal, Tag.equal | Tag.notEqual, Tag.notEqual
  | Tag.minLength, Tag.minLength | Tag.maxLength, Tag.maxLength => true
  | _, _ => false
  end.

Definition RuleType_eq_dec (a b : RuleType) : {a = b} + {a <> b}.
Proof. decide equality. Defined.

(** [StringRule]: a tagged union over the four rule kinds. *)
Inductive StringRule : Type :=
| Equal (value : string)
| NotEqual (value : string)
| MinLength (min : number)
| MaxLength (max : number).

Definition type (r : StringRule) : RuleType :=
  match r with
  | Equal _ => Tag.equal
  | NotEqual _ => Tag.notEqual
  | MinLength _ => Tag.minLength
  | MaxLength _ => Tag.maxLength
  end.

(** ** Completions and the method monad *)

Inductive JSError : Type :=
| TypeError (msg : string).

(** How a call ends: normally with a value, or abruptly with a thrown
    error. *)
Inductive Completion (A : Type) : Type :=
| Normal (a : A)
| Throw (e : JSError).
Arguments Normal {A} a.
Arguments Throw {A} e.

Module StringValidator.

(** The instance state: the private field [rules?: StringRule[]], which
    the type allows to be [undefined] ([None]). *)
Record t : Type := mk { rules : option (list StringRule) }.

(** A method body: it reads and writes [this] and may throw. *)
Definition Method (A : Type) : Type := t -> Completion (A * t).

Definition ret {A : Type} (a : A) : Method A :=
  fun this => Normal (a, this).

Definition bind {A B : Type} (m : Method A) (k : A -> Method B) : Method B :=
  fun this =>
    match m this with
    | Normal (a, this') => k a this'
    | Throw e => Throw e
    end.

Definition throw {A : Type} (e : JSError) : Method A :=
  fun _ => Throw e.

(** [this.rules] *)
Definition get_rules : Method (option (list StringRule)) :=
  fun this => Normal (rules this, this).

(** [this.rules = rs] *)
Definition set_rules (rs : option (list StringRule)) : Method unit :=
  fun _ => Normal (tt, mk rs).

Declare Scope method_scope.
Delimit Scope method_scope with method.
Notation "x <- m ;; k" := (bind m (fun x => k))
  (at level 61, m at next level, right associativity) : method_scope.
Notation "m ;; k" := (bind m (fun _ => k))
  (at level 61, right associativity) : method_scope.
Local Open Scope method_scope.

(** [new StringValidator(rules)]: an argument that is not an array (here:
    omitted or [undefined]) is replaced by the empty array. *)
Definition constructor (rules : option (list StringRule)) : t :=
  match rules with
  | Some rs => mk (Some rs)
  | None => mk (Some [])
  end.

(** [addRule]: drop every stored rule whose [type] is that of [rule], then
    append [rule].  [filtered] stays [undefined] when [this.rules] is, and
    spreading [undefined] throws a [TypeError] (its text is the engine's and
    nothing depends on it). *)
Definition addRule (rule : StringRule) : Method (list StringRule) :=
  rs <- get_rules ;;
  let filtered :=
    match rs with
    | Some rs => Some (filter (fun r => negb (RuleType_eqb (type r) (type rule))) rs)
    | None => None
    end in
  match filtered with
  | Some filtered => ret (filtered ++ [rule])%list
  | None => throw (TypeError "filtered is not iterable")
  end.

(** The configuration methods.  Each returns [this]; as there is one
    object, a chain [v.a().b()] is the sequence [a ;; b] on its state. *)
Definition equals (value : string) : Method unit :=
  rs <- addRule (Equal value) ;; set_rules (Some rs).

Definition notEquals (value : string) : Method unit :=
  rs <- addRule (NotEqual value) ;; set_rules (Some rs).

Definition minLength (min : number) : Method unit :=
  rs <- addRule (MinLength min) ;; set_rules (Some rs).

Definition maxLength (max : number) : Method unit :=
  rs <- addRule (MaxLength max) ;; set_rules (Some rs).

Definition notEmpty : Method unit :=
  rs <- addRule (MinLength (Finite 1)) ;; set_rules (Some rs).

Definition empty : Method unit :=
  rs <- addRule (MaxLength (Finite 0)) ;; set_rules (Some rs).

(** [checkRule]: one rule against the value being validated.  The
    [default] arm of the source's [switch] is unreachable for a
    [StringRule] and has no counterpart here. *)
Definition checkRule (rule : StringRule) (value : string) : Result string :=
  let err := fun msg : string => Failure msg in
  let ok := fun _ : unit => Success value in
  match rule with
  | Equal rule_value =>
      if negb (String.eqb rule_value value)
      then err ("Value was expected to be " ++ rule_value ++ " but was " ++ value ++ ".")
      else ok tt
  | NotEqual rule_value =>
      if String.eqb rule_value value
      then err ("Value must not be " ++ rule_value ++ ".")
      else ok tt
  | MinLength rule_min =>
      if num_lt (str_length value) rule_min
      then err ("String length must be greater than or equal to "
                ++ num_to_string rule_min ++ " but was "
                ++ num_to_string (str_length value) ++ ".")
      else ok tt
  | MaxLength rule_max =>
      if num_gt (str_length value) rule_max
      then err ("String length must be less than or equal to "
                ++ num_to_string rule_max ++ " but was "
                ++ num_to_string (str_length value) ++ ".")
      else ok tt
  end.

(** The [for ... of] loop of [go]: [Some result] is the early [return]
    at the first rule that fails, [None] is falling out of the loop. *)
Fixpoint go_loop (rules : list StringRule) (value : string) : option (Result string) :=
  match rules with
  | [] => None
  | rule :: rest =>
      let result := checkRule rule value in
      if negb (ok result) then Some result else go_loop rest value
  end.

(** [go]: the type gate, then the rules in stored order.  The three tests
    of the gate are [value === null], [value === undefined] and
    [typeof value !== "string"]; the last one lets through exactly the
    values [VString s]. *)
Definition go (value : JSValue) : Method (Result string) :=
  match value with
  | VNull =>
      ret (Failure "StringValidator expected a string but received null.")
  | VUndefined =>
      ret (Failure "StringValidator expected a string but received undefined.")
  | VString s =>
      rs <- get_rules ;;
      match rs with
      | Some rs =>
          match go_loop rs s with
          | Some result => ret result
          | None => ret (Success s)
          end
      | None => ret (Success s)
      end
  | other =>
      ret (Failure ("StringValidator expected a string but received "
                    ++ typeof other ++ "."))
  end.

End StringValidator.


Import StringValidator.
Local Open Scope method_scope.

(** ** The sample caller *)

(** [const validator = new StringValidator().notEmpty().maxLength(20).notEquals("foo")] *)
Definition validator : Completion (unit * StringValidator.t) :=
  (notEmpty ;; maxLength (Finite 20) ;; notEquals "foo") (constructor None).

(** ** Call sequences *)

(** A configuration call with its arguments. *)
Inductive Config : Type :=
| CallEquals (value : string)
| CallNotEquals (value : string)
| CallMinLength (min : number)
| CallMaxLength (max : number)
| CallNotEmpty
| CallEmpty.

Definition configure (c : Config) : Method unit :=
  match c with
  | CallEquals value => equals value
  | CallNotEquals value => notEquals value
  | CallMinLength min => minLength min
  | CallMaxLength max => maxLength max
  | CallNotEmpty => notEmpty
  | CallEmpty => empty
  end.

(** The rule literal that a configuration call hands to [addRule]. *)
Definition rule_of (c : Config) : StringRule :=
  match c with
  | CallEquals value => Equal value
  | CallNotEquals value => NotEqual value
  | CallMinLength min => MinLength min
  | CallMaxLength max => MaxLength max
  | CallNotEmpty => MinLength (Finite 1)
  | CallEmpty => MaxLength (Finite 0)
  end.

(** The kind of rule that a configuration call sets. *)
Definition kind (c : Config) : RuleType := type (rule_of c).

(** A chain of configuration calls on one validator. *)
Fixpoint configure_all (cs : list Config) : Method unit :=
  match cs with
  | [] => ret tt
  | c :: cs' => configure c ;; configure_all cs'
  end.

(** Any public call on a validator. *)
Inductive Call : Type :=
| Configure (c : Config)
| Go (value : JSValue).

(** A client that performs the calls in order and keeps what each [go]
    returned. *)
Fixpoint run_calls (cs : list Call) : Method (list (Result string)) :=
  match cs with
  | [] => ret []
  | Configure c :: cs' => configure c ;; run_calls cs'
  | Go value :: cs' =>
      r <- go value ;; rs <- run_calls cs' ;; ret (r :: rs)
  end.

(** ** Predicates of the specification *)

(** At most one stored rule of each kind. *)
Definition one_rule_per_type (rs : list StringRule) : Prop :=
  NoDup (map type rs).

(** The stored rules of a given kind. *)
Definition rules_of_type (k : RuleType) (rs : list StringRule) : list StringRule :=
  filter (fun r => RuleType_eqb (type r) k) rs.

(** The stored rules of every other kind, in stored order. *)
Definition rules_not_of_type (k : RuleType) (rs : list StringRule) : list StringRule :=
  filter (fun r => negb (RuleType_eqb (type r) k)) rs.

(** A rule fails on a candidate when its check is not [ok]. *)
Definition fails (rule : StringRule) (candidate : string) : Prop :=
  ok (checkRule rule candidate) = false.

(** ** Observations on a validator *)

(** A rule passes on a candidate when its check is [ok]. *)
Definition passes (candidate : string) (rule : StringRule) : Prop :=
  ok (checkRule rule candidate) = true.

(** Whether [go] on the string [s] comes back with [ok: true]. *)
Definition accepts (this : StringValidator.t) (s : string) : bool :=
  match go (VString s) this with
  | Normal (result, _) => ok result
  | Throw _ => false
  end.

(** Whether a chain of configuration calls has a call of kind [k]. *)
Definition configures (k : RuleType) (cs : list Config) : bool :=
  existsb (fun c => RuleType_eqb (kind c) k) cs.

(** The calls of a chain that no later call of the same kind follows, in
    call order. *)
Fixpoint last_calls (cs : list Config) : list Config :=
  match cs with
  | [] => []
  | c :: cs' => if configures (kind c) cs' then last_calls cs' else c :: last_calls cs'
  end.

(** The configuration calls of a client's run, in order. *)
Fixpoint configs_of (cs : list Call) : list Config :=
  match cs with
  | [] => []
  | Configure c :: cs' => c :: configs_of cs'
  | Go _ :: cs' => configs_of cs'
  end.

(** The validator a call leaves behind, when it completes. *)
Definition state_after {A : Type} (c : Completion (A * StringValidator.t))
  : option StringValidator.t :=
  match c with
  | Normal (_, this) => Some this
  | Throw _ => None
  end.

(** ** The script around the sample validator *)

Module Demo.

(** A line written by [console.error] or by [console.log]. *)
Inductive ConsoleLine : Type :=
| ConsoleError (text : string)
| ConsoleLog (text : string).

(** What the script acts on: the [validator] object and the console. *)
Record World : Type := mkWorld {
  the_validator : StringValidator.t;
  console : list ConsoleLine
}.

Definition and_then {A B : Type} (c : Completion A) (k : A -> Completion B) : Completion B :=
  match c with
  | Normal a => k a
  | Throw e => Throw e
  end.

(** [const go = (value: string) => ...]: run the validator and print the
    message on failure, the value on success. *)
Definition go (value : string) (w : World) : Completion World :=
  and_then (StringValidator.go (VString value) (the_validator w)) (fun '(result, v) =>
    match result with
    | Failure message =>
        Normal (mkWorld v (console w ++ [ConsoleError message]))
    | Success result_value =>
        Normal (mkWorld v (console w
                             ++ [ConsoleLog ("String value is valid: " ++ result_value ++ ".")]))
    end).

(** The script: build [validator], then the three calls of [go]. *)
Definition main : Completion World :=
  and_then validator (fun '(_, v) =>
  and_then (go "foo" (mkWorld v [])) (fun w1 =>
  and_then (go "bar" w1) (fun w2 =>
  go "something longer than 20" w2))).

(** The line that the sample validator's rules call for, read off the
    three rules in stored order. *)
Definition expected_line (s : string) : ConsoleLine :=
  if (String.length s =? 0)%nat then
    ConsoleError "String length must be greater than or equal to 1 but was 0."
  else if (20 <? String.length s)%nat then
    ConsoleError ("String length must be less than or equal to 20 but was "
                  ++ num_to_string (str_length s) ++ ".")
  else if String.eqb s "foo" then
    ConsoleError "Value must not be foo."
  else
    ConsoleLog ("String value is valid: " ++ s ++ ".").

End Demo.

(** ** The range of the number model *)





(** ** The validator on arrays that hold more than rules *)

(** An element of the array handed to the constructor.  The parameter is
    declared [StringRule[]], and the constructor keeps any array as it is
    given: [[null]] is accepted by the compiler unless strict null checks
    are on, and a sparse [new Array<StringRule>(3)] always is. *)
Inductive Slot : Type :=
| Rule (r : StringRule)
| NullSlot
| UndefinedSlot
| Hole.

Module Loose.

(** The instance state, with [rules] an array of slots. *)
Record t : Type := mk { rules : option (list Slot) }.

Definition Method (A : Type) : Type := t -> Completion (A * t).

Definition ret {A : Type} (a : A) : Method A :=
  fun this => Normal (a, this).

Definition bind {A B : Type} (m : Method A) (k : A -> Method B) : Method B :=
  fun this =>
    match m this with
    | Normal (a, this') => k a this'
    | Throw e => Throw e
    end.

Definition throw {A : Type} (e : JSError) : Method A :=
  fun _ => Throw e.

Definition get_rules : Method (option (list Slot)) :=
  fun this => Normal (rules this, this).

Definition set_rules (rs : option (list Slot)) : Method unit :=
  fun _ => Normal (tt, mk rs).

Declare Scope loose_scope.
Delimit Scope loose_scope with loose.
Notation "x <- m ;; k" := (bind m (fun x => k))
  (at level 61, m at next level, right associativity) : loose_scope.
Notation "m ;; k" := (bind m (fun _ => k))
  (at level 61, right associativity) : loose_scope.
Local Open Scope loose_scope.

(** [new StringValidator(rules)]: [Array.isArray] holds of every array,
    whatever its elements. *)
Definition constructor (rules : option (list Slot)) : t :=
  match rules with
  | Some rs => mk (Some rs)
  | None => mk (Some [])
  end.

(** [this.rules.filter(r => r.type !== rule.type)]: [filter] visits the
    elements in order and skips the holes of a sparse array; reading
    [r.type] of [null] or [undefined] throws; the result is a dense
    array. *)
Fixpoint filter_other_type (rule : StringRule) (rs : list Slot) : Completion (list Slot) :=
  match rs with
  | [] => Normal []
  | Hole :: rest => filter_other_type rule rest
  | NullSlot :: _ =>
      Throw (TypeError "Cannot read properties of null (reading 'type')")
  | UndefinedSlot :: _ =>
      Throw (TypeError "Cannot read properties of undefined (reading 'type')")
  | Rule r :: rest =>
      match filter_other_type rule rest with
      | Normal kept =>
          if negb (RuleType_eqb (type r) (type rule))
          then Normal (Rule r :: kept)
          else Normal kept
      | Throw e => Throw e
      end
  end.

Definition addRule (rule : StringRule) : Method (list Slot) :=
  rs <- get_rules ;;
  match rs with
  | Some rs =>
      match filter_other_type rule rs with
      | Normal filtered => ret (filtered ++ [Rule rule])%list
      | Throw e => throw e
      end
  | None => throw (TypeError "filtered is not iterable")
  end.

Definition equals (value : string) : Method unit :=
  rs <- addRule (Equal value) ;; set_rules (Some rs).

Definition notEquals (value : string) : Method unit :=
  rs <- addRule (NotEqual value) ;; set_rules (Some rs).

Definition minLength (min : number) : Method unit :=
  rs <- addRule (MinLength min) ;; set_rules (Some rs).

Definition maxLength (max : number) : Method unit :=
  rs <- addRule (MaxLength max) ;; set_rules (Some rs).

Definition notEmpty : Method unit :=
  rs <- addRule (MinLength (Finite 1)) ;; set_rules (Some rs).

Definition empty : Method unit :=
  rs <- addRule (MaxLength (Finite 0)) ;; set_rules (Some rs).

(** [checkRule]: [switch (rule.type)] reads [type] first, which throws on
    [null] and on [undefined]; on a rule object it is the check of
    [StringValidator.checkRule]. *)
Definition checkRule (rule : Slot) (value : string) : Completion (Result string) :=
  match rule with
  | Rule r => Normal (StringValidator.checkRule r value)
  | NullSlot =>
      Throw (TypeError "Cannot read properties of null (reading 'type')")
  | UndefinedSlot | Hole =>
      Throw (TypeError "Cannot read properties of undefined (reading 'type')")
  end.

(** The [for ... of] loop of [go]: the iterator yields [undefined] for a
    hole. *)
Fixpoint go_loop (rules : list Slot) (value : string) : Completion (option (Result string)) :=
  match rules with
  | [] => Normal None
  | slot :: rest =>
      let rule := match slot with Hole => UndefinedSlot | _ => slot end in
      match checkRule rule value with
      | Normal result =>
          if negb (ok result) then Normal (Some result) else go_loop rest value
      | Throw e => Throw e
      end
  end.

Definition go (value : JSValue) : Method (Result string) :=
  match value with
  | VNull =>
      ret (Failure "StringValidator expected a string but received null.")
  | VUndefined =>
      ret (Failure "StringValidator expected a string but received undefined.")
  | VString s =>
      rs <- get_rules ;;
      match rs with
      | Some rs =>
          match go_loop rs s with
          | Normal (Some result) => ret result
          | Normal None => ret (Success s)
          | Throw e => throw e
          end
      | None => ret (Success s)
      end
  | other =>
      ret (Failure ("StringValidator expected a string but received "
                    ++ typeof other ++ "."))
  end.

Definition configure (c : Config) : Method unit :=
  match c with
  | CallEquals value => equals value
  | CallNotEquals value => notEquals value
  | CallMinLength min => minLength min
  | CallMaxLength max => maxLength max
  | CallNotEmpty => notEmpty
  | CallEmpty => empty
  end.

(** A client that performs the calls in order and keeps what each [go]
    returned. *)
Fixpoint run_calls (cs : list Call) : Method (list (Result string)) :=
  match cs with
  | [] => ret []
  | Configure c :: cs' => configure c ;; run_calls cs'
  | Go value :: cs' =>
      r <- go value ;; rs <- run_calls cs' ;; ret (r :: rs)
  end.

(** A validator over rule objects, seen as one over slots. *)
Definition embed (this : StringValidator.t) : t :=
  mk (option_map (map Rule) (StringValidator.rules this)).

Definition lift {A : Type} (c : Completion (A * StringValidator.t)) : Completion (A * t) :=
  match c with
  | Normal (a, this) => Normal (a, embed this)
  | Throw e => Throw e
  end.

End Loose.

(** Whether a slot holds a rule object. *)
Definition is_rule (s : Slot) : bool :=
  match s with
  | Rule _ => true
  | NullSlot | UndefinedSlot | Hole => false
  end.

(** ** Basic facts *)

Lemma RuleType_eqb_eq (a b : RuleType) : RuleType_eqb a b = true <-> a = b.
Proof. destruct a, b; simpl; split; congruence. Qed.

Lemma RuleType_eqb_refl (a : RuleType) : RuleType_eqb a a = true.
Proof. now apply RuleType_eqb_eq. Qed.

Lemma RuleType_eqb_neq (a b : RuleType) : RuleType_eqb a b = false <-> a <> b.
Proof.
  rewrite <- RuleType_eqb_eq. destruct (RuleType_eqb a b); split; congruence.
Qed.

(** Scenario checks on the sample validator. *)
Example validator_rules :
  validator = Normal (tt, mk (Some [MinLength (Finite 1); MaxLength (Finite 20); NotEqual "foo"])).
Proof. reflexivity. Qed.

(** ** The scenarios of the sample validator *)

(** C1: on the validator built by
    [new StringValidator().notEmpty().maxLength(20).notEquals("foo")],
    [go("foo")] is the failure "Value must not be foo.", [go("bar")] is the
    success carrying "bar", [go("something longer than 20")] (24 characters)
    is the failure "String length must be less than or equal to 20 but was
    24." and [go("")] is the failure "String length must be greater than or
    equal to 1 but was 0.". *)
Theorem sample_validator_scenarios :
  exists v : StringValidator.t,
    validator = Normal (tt, v) /\
    go (VString "foo") v = Normal (Failure "Value must not be foo.", v) /\
    go (VString "bar") v = Normal (Success "bar", v) /\
    String.length "something longer than 20" = 24%nat /\
    go (VString "something longer than 20") v
      = Normal (Failure "String length must be less than or equal to 20 but was 24.", v) /\
    go (VString "") v
      = Normal (Failure "String length must be greater than or equal to 1 but was 0.", v).
Proof.
  eexists. split; [reflexivity |].
  repeat split; vm_compute; reflexivity.
Qed.

(** ** The type gate *)

Lemma typeof_string (v : JSValue) :
  typeof v = "string" <-> exists s, v = VString s.
Proof.
  split.
  - destruct v; simpl; intros H; try discriminate H. now exists s.
  - intros [s ->]. reflexivity.
Qed.

(** C2: whatever rules are stored, [go] on a value that is not a string
    fails at the gate, with nothing but the received kind in the message:
    "null" for [null], "undefined" for [undefined], and [typeof value] for
    every other value (e.g. "number" for 42).  The result does not depend on
    the stored rules, so no rule is consulted. *)
Theorem go_type_gate (this : StringValidator.t) :
  go VNull this
    = Normal (Failure "StringValidator expected a string but received null.", this) /\
  go VUndefined this
    = Normal (Failure "StringValidator expected a string but received undefined.", this) /\
  (forall v : JSValue,
      v <> VNull -> v <> VUndefined -> typeof v <> "string" ->
      go v this
        = Normal (Failure ("StringValidator expected a string but received "
                           ++ typeof v ++ "."), this)) /\
  go (VNumber (Finite 42)) this
    = Normal (Failure "StringValidator expected a string but received number.", this).
Proof.
  repeat split.
  intros v Hnull Hundef Hstr.
  destruct v; try reflexivity; try congruence.
  exfalso. apply Hstr. reflexivity.
Qed.

(** ** The per-rule check *)

(** Bounds that are not natural numbers are taken as they come: a negative
    maximum fails every string, an infinite minimum fails every string, and
    no comparison with [NaN] holds, so a [NaN] bound never fails. *)
Example checkRule_negative_max :
  checkRule (MaxLength (Finite (-1))) ""
  = Failure "String length must be less than or equal to -1 but was 0.".
Proof. reflexivity. Qed.

Example checkRule_infinite_min :
  checkRule (MinLength PosInfinity) "abc"
  = Failure "String length must be greater than or equal to Infinity but was 3.".
Proof. reflexivity. Qed.

Example checkRule_nan_bounds :
  checkRule (MinLength NaN) "" = Success "" /\
  checkRule (MaxLength NaN) "abc" = Success "abc".
Proof. split; reflexivity. Qed.

Example checkRule_equal_mismatch :
  checkRule (Equal "foo") "bar" = Failure "Value was expected to be foo but was bar.".
Proof. reflexivity. Qed.

(** *** The text of an interpolated number *)
















(** ** Zero rules *)

(** C7: on a validator that stores no rule, [go] of any string succeeds
    with that very string. *)
Theorem go_no_rules (s : string) :
  go (VString s) (constructor None) = Normal (Success s, constructor None) /\
  go (VString s) (constructor (Some [])) = Normal (Success s, constructor (Some [])) /\
  go (VString s) (mk (Some [])) = Normal (Success s, mk (Some [])).
Proof. repeat split. Qed.

(** ** The evaluation loop *)

Lemma go_string (s : string) (rs : list StringRule) :
  go (VString s) (mk (Some rs))
  = Normal (match go_loop rs s with
            | Some result => result
            | None => Success s
            end, mk (Some rs)).
Proof.
  unfold go, bind, get_rules, ret. simpl.
  destruct (go_loop rs s); reflexivity.
Qed.

(** Rules that pass are stepped over. *)
Lemma go_loop_passing_prefix (pre rest : list StringRule) (s : string) :
  Forall (fun r => ok (checkRule r s) = true) pre ->
  go_loop (pre ++ rest) s = go_loop rest s.
Proof.
  induction 1 as [| r pre Hr _ IH]; [reflexivity |].
  cbn [app go_loop]. rewrite Hr. exact IH.
Qed.

(** The loop returns at a failing rule, whatever follows it. *)
Lemma go_loop_failing_head (rule : StringRule) (rest : list StringRule) (s : string) :
  ok (checkRule rule s) = false ->
  go_loop (rule :: rest) s = Some (checkRule rule s).
Proof. intros H. cbn [go_loop]. rewrite H. reflexivity. Qed.

(** C4: short circuit.  When every rule stored before [rule] passes on [s]
    and [rule] fails with [msg], [go] returns the failure [msg]; the loop
    behaves as if the sequence ended at [rule], so the rules stored after it
    are not consulted: replacing them by any others ([post'] for [post])
    leaves the returned result and message unchanged. *)
Theorem go_short_circuit
    (pre post post' : list StringRule) (rule : StringRule) (s msg : string) :
  Forall (fun r => ok (checkRule r s) = true) pre ->
  checkRule rule s = Failure msg ->
  go_loop (pre ++ rule :: post) s = go_loop (pre ++ [rule]) s /\
  go (VString s) (mk (Some (pre ++ rule :: post)%list))
    = Normal (Failure msg, mk (Some (pre ++ rule :: post)%list)) /\
  go (VString s) (mk (Some (pre ++ rule :: post')%list))
    = Normal (Failure msg, mk (Some (pre ++ rule :: post')%list)).
Proof.
  intros Hpre Hrule.
  assert (Hfail : ok (checkRule rule s) = false) by (rewrite Hrule; reflexivity).
  assert (Hloop : forall rest, go_loop (pre ++ rule :: rest) s = Some (Failure msg)).
  { intros rest. rewrite go_loop_passing_prefix by assumption.
    rewrite go_loop_failing_head by assumption. now rewrite Hrule. }
  split; [| split].
  - now rewrite !Hloop.
  - rewrite go_string, Hloop. reflexivity.
  - rewrite go_string, Hloop. reflexivity.
Qed.

Lemma go_short_circuit_witness :
  Forall (fun r => ok (checkRule r "abcd") = true) [MinLength (Finite 1)] /\
  checkRule (MaxLength (Finite 3)) "abcd"
    = Failure "String length must be less than or equal to 3 but was 4." /\
  go_loop ([MinLength (Finite 1)] ++ MaxLength (Finite 3) :: [NotEqual "abcd"]) "abcd"
    = go_loop ([MinLength (Finite 1)] ++ [MaxLength (Finite 3)]) "abcd" /\
  go (VString "abcd")
     (mk (Some ([MinLength (Finite 1)] ++ MaxLength (Finite 3) :: [NotEqual "abcd"])%list))
    = Normal (Failure "String length must be less than or equal to 3 but was 4.",
              mk (Some ([MinLength (Finite 1)] ++ MaxLength (Finite 3) :: [NotEqual "abcd"])%list)) /\
  go (VString "abcd")
     (mk (Some ([MinLength (Finite 1)] ++ MaxLength (Finite 3) :: [Equal "x"; MinLength NaN])%list))
    = Normal (Failure "String length must be less than or equal to 3 but was 4.",
              mk (Some ([MinLength (Finite 1)] ++ MaxLength (Finite 3) :: [Equal "x"; MinLength NaN])%list)).
Proof.
  split; [repeat constructor | split; [reflexivity |]].
  apply (go_short_circuit [MinLength (Finite 1)] [NotEqual "abcd"] [Equal "x"; MinLength NaN]
           (MaxLength (Finite 3)) "abcd"
           "String length must be less than or equal to 3 but was 4.").
  - repeat constructor.
  - reflexivity.
Defined.

(** ** Purity of evaluation *)

Lemma go_frame (value : JSValue) (this : StringValidator.t) :
  exists result, go value this = Normal (result, this).
Proof.
  destruct this as [[rs |]]; destruct value; try (eexists; reflexivity).
  rewrite go_string. eexists; reflexivity.
Qed.

(** C10: [go] leaves the stored rules as they were, and a second [go] with
    the same input on the same rules returns what the first returned; a
    client that only evaluates never changes the validator. *)
Theorem go_pure (this : StringValidator.t) :
  (forall value : JSValue,
      exists result : Result string,
        go value this = Normal (result, this) /\
        (r1 <- go value ;; r2 <- go value ;; ret (r1, r2)) this
          = Normal ((result, result), this)) /\
  (forall values : list JSValue,
      exists results : list (Result string),
        run_calls (map Go values) this = Normal (results, this) /\
        length results = length values).
Proof.
  split.
  - intros value. destruct (go_frame value this) as [result H].
    exists result. split; [exact H |].
    unfold bind. rewrite H. rewrite H. reflexivity.
  - induction values as [| value values [results [IH Hlen]]].
    + exists []. split; reflexivity.
    + destruct (go_frame value this) as [result H].
      exists (result :: results). split.
      * cbn [map run_calls]. unfold bind at 1. rewrite H.
        unfold bind. rewrite IH. reflexivity.
      * simpl. now rewrite Hlen.
Qed.

(** ** Configuration: replace by kind *)

Lemma addRule_defined (rule : StringRule) (rs : list StringRule) :
  addRule rule (mk (Some rs))
  = Normal ((rules_not_of_type (type rule) rs ++ [rule])%list, mk (Some rs)).
Proof. reflexivity. Qed.

(** On a validator whose [rules] is [undefined] the spread in [addRule]
    throws. *)
Lemma addRule_undefined (rule : StringRule) :
  addRule rule (mk None) = Throw (TypeError "filtered is not iterable").
Proof. reflexivity. Qed.

Lemma configure_defined (c : Config) (rs : list StringRule) :
  configure c (mk (Some rs))
  = Normal (tt, mk (Some (rules_not_of_type (type (rule_of c)) rs ++ [rule_of c])%list)).
Proof. destruct c; reflexivity. Qed.

Lemma configure_undefined (c : Config) :
  configure c (mk None) = Throw (TypeError "filtered is not iterable").
Proof. destruct c; reflexivity. Qed.

(** Runs the configuration calls at the head of a sequence on a validator
    whose [rules] is an array. *)
Ltac run_configure := unfold bind; rewrite ?configure_defined.

Lemma rules_not_of_type_app (k : RuleType) (l1 l2 : list StringRule) :
  rules_not_of_type k (l1 ++ l2) = (rules_not_of_type k l1 ++ rules_not_of_type k l2)%list.
Proof. apply filter_app. Qed.

Lemma rules_of_type_app (k : RuleType) (l1 l2 : list StringRule) :
  rules_of_type k (l1 ++ l2) = (rules_of_type k l1 ++ rules_of_type k l2)%list.
Proof. apply filter_app. Qed.

Lemma rules_not_of_type_idem (k : RuleType) (rs : list StringRule) :
  rules_not_of_type k (rules_not_of_type k rs) = rules_not_of_type k rs.
Proof.
  induction rs as [| r rs IH]; [reflexivity |].
  unfold rules_not_of_type in *. cbn [filter].
  destruct (RuleType_eqb (type r) k) eqn:E; cbn [negb]; [exact IH |].
  cbn [filter]. rewrite E. cbn [negb]. now rewrite IH.
Qed.

Lemma rules_of_type_not_of_type (k : RuleType) (rs : list StringRule) :
  rules_of_type k (rules_not_of_type k rs) = [].
Proof.
  induction rs as [| r rs IH]; [reflexivity |].
  unfold rules_of_type, rules_not_of_type in *. cbn [filter].
  destruct (RuleType_eqb (type r) k) eqn:E; cbn [negb]; [exact IH |].
  cbn [filter]. rewrite E. exact IH.
Qed.

Lemma rules_not_of_type_absent (k : RuleType) (rs : list StringRule) :
  ~ In k (map type rs) -> rules_not_of_type k rs = rs.
Proof.
  induction rs as [| r rs IH]; [reflexivity |].
  cbn [map In]. intros H. unfold rules_not_of_type in *. cbn [filter].
  destruct (RuleType_eqb (type r) k) eqn:E.
  - apply RuleType_eqb_eq in E. tauto.
  - cbn [negb]. f_equal. apply IH. tauto.
Qed.

Lemma in_types_not_of_type (k k' : RuleType) (rs : list StringRule) :
  In k' (map type (rules_not_of_type k rs)) <-> k' <> k /\ In k' (map type rs).
Proof.
  unfold rules_not_of_type. rewrite !in_map_iff. split.
  - intros [r [Hr Hin]]. apply filter_In in Hin as [Hin Hne].
    apply negb_true_iff, RuleType_eqb_neq in Hne. split; [congruence | eauto].
  - intros [Hne [r [Hr Hin]]]. exists r. split; [exact Hr |].
    apply filter_In. split; [exact Hin |].
    apply negb_true_iff, RuleType_eqb_neq. congruence.
Qed.

Lemma rules_not_of_type_replaced (k : RuleType) (r : StringRule) (rs : list StringRule) :
  type r = k ->
  rules_not_of_type k (rules_not_of_type k rs ++ [r]) = rules_not_of_type k rs.
Proof.
  intros <-. rewrite rules_not_of_type_app, rules_not_of_type_idem.
  unfold rules_not_of_type at 2. cbn [filter].
  rewrite RuleType_eqb_refl. cbn [negb]. apply app_nil_r.
Qed.

Lemma rules_of_type_replaced (k : RuleType) (r : StringRule) (rs : list StringRule) :
  type r = k ->
  rules_of_type k (rules_not_of_type k rs ++ [r]) = [r].
Proof.
  intros <-. rewrite rules_of_type_app, rules_of_type_not_of_type.
  unfold rules_of_type. cbn [filter app].
  now rewrite RuleType_eqb_refl.
Qed.

(** Replacing by kind keeps the invariant. *)
Lemma one_rule_per_type_replace (rule : StringRule) (rs : list StringRule) :
  one_rule_per_type rs ->
  one_rule_per_type (rules_not_of_type (type rule) rs ++ [rule]).
Proof.
  unfold one_rule_per_type. intros H. rewrite map_app. cbn [map].
  apply NoDup_app.
  - clear -H. induction rs as [| r rs IH]; cbn [map] in *; [constructor |].
    inversion H as [| ? ? Hnotin Hrest]; subst.
    unfold rules_not_of_type in *. cbn [filter].
    destruct (negb (RuleType_eqb (type r) (type rule))); [| now apply IH].
    cbn [map]. constructor; [| now apply IH].
    intros Hin. apply Hnotin.
    apply (in_types_not_of_type (type rule)) in Hin. tauto.
  - repeat constructor. intros [].
  - intros k Hin [Hk | []]. subst k.
    apply in_types_not_of_type in Hin. tauto.
Qed.

Lemma in_types_replace (rule : StringRule) (rs : list StringRule) (k : RuleType) :
  In k (map type (rules_not_of_type (type rule) rs ++ [rule]))
  <-> k = type rule \/ In k (map type rs).
Proof.
  rewrite map_app, in_app_iff, in_types_not_of_type. cbn [map In].
  destruct (RuleType_eq_dec k (type rule)) as [-> | Hne]; intuition congruence.
Qed.

Lemma configure_all_defined (cs : list Config) :
  forall rs : list StringRule,
  exists rs' : list StringRule,
    configure_all cs (mk (Some rs)) = Normal (tt, mk (Some rs')) /\
    (one_rule_per_type rs -> one_rule_per_type rs') /\
    (forall k, In k (map type rs') <-> In k (map type rs) \/ In k (map kind cs)).
Proof.
  induction cs as [| c cs IH]; intros rs.
  - exists rs. cbn [configure_all map In]. repeat split; tauto.
  - destruct (IH (rules_not_of_type (type (rule_of c)) rs ++ [rule_of c])%list)
      as [rs' [Hrun [Hinv Hin]]].
    exists rs'. split; [| split].
    + cbn [configure_all]. run_configure. exact Hrun.
    + intros H. now apply Hinv, one_rule_per_type_replace.
    + intros k. rewrite Hin, in_types_replace. cbn [map In]. unfold kind.
      intuition congruence.
Qed.

(** Calls of pairwise distinct kinds, none of them stored yet, are appended
    one after the other. *)
Lemma configure_all_distinct (cs : list Config) :
  forall rs : list StringRule,
    NoDup (map kind cs) ->
    (forall k, In k (map kind cs) -> ~ In k (map type rs)) ->
    configure_all cs (mk (Some rs)) = Normal (tt, mk (Some (rs ++ map rule_of cs)%list)).
Proof.
  induction cs as [| c cs IH]; intros rs Hnd Hfresh.
  - cbn [configure_all map]. now rewrite app_nil_r.
  - cbn [map] in Hnd. inversion Hnd as [| ? ? Hc Hnd']; subst.
    cbn [configure_all]. run_configure.
    rewrite rules_not_of_type_absent by (apply Hfresh; now left).
    rewrite IH.
    + cbn [map]. now rewrite <- app_assoc.
    + exact Hnd'.
    + intros k Hk. rewrite map_app, in_app_iff. cbn [map In].
      intros [Hin | [Heq | []]].
      * apply (Hfresh k); [now right | exact Hin].
      * apply Hc. unfold kind at 1. now rewrite Heq.
Qed.

Lemma NoDup_same_length {A : Type} (l1 l2 : list A) :
  NoDup l1 -> NoDup l2 -> (forall x, In x l1 <-> In x l2) ->
  length l1 = length l2.
Proof.
  intros H1 H2 H. apply Nat.le_antisymm.
  - apply NoDup_incl_length; [exact H1 | intros x; apply H].
  - apply NoDup_incl_length; [exact H2 | intros x; apply H].
Qed.

(** C5: every configuration call replaces by kind: the stored rules of the
    call's kind are dropped, the other rules keep their order and the new
    rule comes last.  Hence two calls of one kind in a row leave exactly one
    rule of that kind, the second call's; and on a fresh validator, calls of
    N distinct kinds leave exactly N rules (whatever the calls, as many
    rules as there are distinct kinds among them). *)
Theorem configure_replaces_by_kind :
  (forall (c : Config) (rs : list StringRule),
      exists rs' : list StringRule,
        configure c (mk (Some rs)) = Normal (tt, mk (Some rs')) /\
        rs' = (rules_not_of_type (kind c) rs ++ [rule_of c])%list /\
        rules_not_of_type (kind c) rs' = rules_not_of_type (kind c) rs /\
        rules_of_type (kind c) rs' = [rule_of c]) /\
  (forall (c1 c2 : Config) (rs : list StringRule),
      kind c1 = kind c2 ->
      exists rs' : list StringRule,
        (configure c1 ;; configure c2) (mk (Some rs)) = Normal (tt, mk (Some rs')) /\
        rs' = (rules_not_of_type (kind c2) rs ++ [rule_of c2])%list /\
        rules_of_type (kind c2) rs' = [rule_of c2]) /\
  (forall cs : list Config,
      NoDup (map kind cs) ->
      configure_all cs (constructor None) = Normal (tt, mk (Some (map rule_of cs))) /\
      length (map rule_of cs) = length cs) /\
  (forall cs : list Config,
      exists rs' : list StringRule,
        configure_all cs (constructor None) = Normal (tt, mk (Some rs')) /\
        length rs' = length (nodup RuleType_eq_dec (map kind cs))).
Proof.
  split; [| split; [| split]].
  - intros c rs. eexists. split; [apply configure_defined |].
    split; [reflexivity |]. split.
    + now apply rules_not_of_type_replaced.
    + now apply rules_of_type_replaced.
  - intros c1 c2 rs Hk. eexists. split; [| split; [reflexivity |]].
    + run_configure.
      fold (kind c1) (kind c2). rewrite Hk.
      rewrite rules_not_of_type_replaced by exact Hk. reflexivity.
    + now apply rules_of_type_replaced.
  - intros cs Hnd. split; [| apply length_map].
    apply (configure_all_distinct cs []); [exact Hnd | intros k _ []].
  - intros cs.
    destruct (configure_all_defined cs []) as [rs' [Hrun [Hinv Hin]]].
    exists rs'. split; [exact Hrun |].
    rewrite <- (length_map type rs').
    apply NoDup_same_length.
    + apply Hinv. constructor.
    + apply NoDup_nodup.
    + intros k. rewrite Hin, nodup_In. cbn [map In]. tauto.
Qed.

(** ** The one-rule-per-kind invariant *)

(** On a validator built without initial rules, or from initial rules that
    already hold one rule per kind, every chain of configuration calls ends
    with one rule per kind. *)
Lemma configured_one_rule_per_type (init : option (list StringRule)) (cs : list Config) :
  match init with
  | Some rs => one_rule_per_type rs
  | None => True
  end ->
  exists rs' : list StringRule,
    configure_all cs (constructor init) = Normal (tt, mk (Some rs')) /\
    one_rule_per_type rs'.
Proof.
  intros Hinit.
  assert (H : exists rs, constructor init = mk (Some rs) /\ one_rule_per_type rs).
  { destruct init as [rs |]; [exists rs | exists []]; split;
      try reflexivity; [exact Hinit | constructor]. }
  destruct H as [rs [-> Hrs]].
  destruct (configure_all_defined cs rs) as [rs' [Hrun [Hinv _]]].
  exists rs'. split; [exact Hrun | exact (Hinv Hrs)].
Qed.

(** C6: the constructor stores an initial rule list as it is given.  From
    [[{type: "equal", value: "a"}, {type: "equal", value: "b"}]] the
    validator holds two rules of kind [equal] right after construction, and
    still holds both after configuration calls of other kinds; only a call
    of kind [equal] removes them. *)
Theorem constructor_keeps_duplicate_kinds :
  let initial := [Equal "a"; Equal "b"] in
  rules (constructor (Some initial)) = Some initial /\
  ~ one_rule_per_type initial /\
  (notEmpty ;; maxLength (Finite 20)) (constructor (Some initial))
    = Normal (tt, mk (Some [Equal "a"; Equal "b"; MinLength (Finite 1); MaxLength (Finite 20)])) /\
  ~ one_rule_per_type [Equal "a"; Equal "b"; MinLength (Finite 1); MaxLength (Finite 20)] /\
  go (VString "a") (constructor (Some initial))
    = Normal (Failure "Value was expected to be b but was a.", constructor (Some initial)) /\
  go (VString "b") (constructor (Some initial))
    = Normal (Failure "Value was expected to be a but was b.", constructor (Some initial)).
Proof.
  cbv zeta. repeat split.
  - unfold one_rule_per_type. cbn [map type]. intros H.
    inversion H as [| ? ? Hnotin _]. apply Hnotin. now left.
  - unfold one_rule_per_type. cbn [map type]. intros H.
    inversion H as [| ? ? Hnotin _]. apply Hnotin. now left.
Qed.

(** ** [notEmpty] and [empty] *)

(** C8: [notEmpty()] is [minLength(1)] and [empty()] is [maxLength(0)]: the
    same effect on every validator, hence the same evaluations afterwards.
    After [maxLength(5)], [notEmpty()] leaves two rules of different kinds;
    after [minLength(3)], it replaces the min-length rule by min = 1. *)
Theorem notEmpty_empty_sugar :
  (forall this : StringValidator.t, notEmpty this = minLength (Finite 1) this) /\
  (forall this : StringValidator.t, empty this = maxLength (Finite 0) this) /\
  (forall (this : StringValidator.t) (value : JSValue),
      (notEmpty ;; go value) this = (minLength (Finite 1) ;; go value) this /\
      (empty ;; go value) this = (maxLength (Finite 0) ;; go value) this) /\
  (maxLength (Finite 5) ;; notEmpty) (constructor None)
    = Normal (tt, mk (Some [MaxLength (Finite 5); MinLength (Finite 1)])) /\
  (minLength (Finite 3) ;; notEmpty) (constructor None)
    = Normal (tt, mk (Some [MinLength (Finite 1)])) /\
  (forall (rs : list StringRule) (n : number),
      (maxLength n ;; notEmpty) (mk (Some rs))
        = Normal (tt, mk (Some (rules_not_of_type Tag.minLength (rules_not_of_type Tag.maxLength rs)
                                  ++ [MaxLength n; MinLength (Finite 1)])%list)) /\
      (minLength n ;; notEmpty) (mk (Some rs))
        = Normal (tt, mk (Some (rules_not_of_type Tag.minLength rs ++ [MinLength (Finite 1)])%list))).
Proof.
  repeat split.
  - change (maxLength n) with (configure (CallMaxLength n)).
    change notEmpty with (configure CallNotEmpty).
    run_configure. cbn [rule_of type].
    rewrite rules_not_of_type_app. cbn. now rewrite <- app_assoc.
  - change (minLength n) with (configure (CallMinLength n)).
    change notEmpty with (configure CallNotEmpty).
    run_configure. cbn [rule_of type].
    now rewrite (rules_not_of_type_replaced Tag.minLength (MinLength n)).
Qed.

(** ** No exception escapes *)

Lemma run_calls_defined (cs : list Call) :
  forall rs : list StringRule,
  exists (results : list (Result string)) (rs' : list StringRule),
    run_calls cs (mk (Some rs)) = Normal (results, mk (Some rs')).
Proof.
  induction cs as [| [c | value] cs IH]; intros rs.
  - exists [], rs. reflexivity.
  - destruct (IH (rules_not_of_type (type (rule_of c)) rs ++ [rule_of c])%list)
      as [results [rs' H]].
    exists results, rs'. cbn [run_calls]. run_configure. exact H.
  - destruct (go_frame value (mk (Some rs))) as [result Hgo].
    destruct (IH rs) as [results [rs' H]].
    exists (result :: results), rs'. cbn [run_calls]. unfold bind.
    rewrite Hgo, H. reflexivity.
Qed.

(** On arrays of rule objects the validator over slots does what the
    validator over rules does. *)
Lemma filter_other_type_rules (rule : StringRule) (rs : list StringRule) :
  Loose.filter_other_type rule (map Rule rs)
  = Normal (map Rule (rules_not_of_type (type rule) rs)).
Proof.
  unfold rules_not_of_type.
  induction rs as [| r rs IH]; [reflexivity |].
  cbn [map Loose.filter_other_type filter]. rewrite IH.
  destruct (negb (RuleType_eqb (type r) (type rule))); reflexivity.
Qed.

Lemma loose_configure_embed (c : Config) (this : StringValidator.t) :
  Loose.configure c (Loose.embed this) = Loose.lift (configure c this).
Proof.
  destruct this as [[rs |]].
  - rewrite configure_defined. unfold Loose.lift, Loose.embed.
    cbn [rules option_map]. rewrite map_app. cbn [map].
    destruct c; unfold Loose.configure, Loose.equals, Loose.notEquals, Loose.minLength,
      Loose.maxLength, Loose.notEmpty, Loose.empty, Loose.addRule, Loose.bind,
      Loose.get_rules, Loose.set_rules, Loose.ret; cbn [Loose.rules];
      rewrite filter_other_type_rules; reflexivity.
  - rewrite configure_undefined. destruct c; reflexivity.
Qed.

Lemma loose_go_loop_rules (rs : list StringRule) (s : string) :
  Loose.go_loop (map Rule rs) s = Normal (go_loop rs s).
Proof.
  induction rs as [| r rs IH]; [reflexivity |].
  cbn [map Loose.go_loop Loose.checkRule go_loop].
  destruct (negb (ok (checkRule r s))); [reflexivity | exact IH].
Qed.

Lemma loose_go_embed (value : JSValue) (this : StringValidator.t) :
  Loose.go value (Loose.embed this) = Loose.lift (go value this).
Proof.
  destruct value; try reflexivity.
  destruct this as [[rs |]]; [| reflexivity].
  rewrite go_string. unfold Loose.go, Loose.bind, Loose.get_rules, Loose.embed.
  cbn [rules option_map Loose.rules]. rewrite loose_go_loop_rules.
  destruct (go_loop rs s); reflexivity.
Qed.

Lemma loose_run_calls_embed (cs : list Call) :
  forall this : StringValidator.t,
    Loose.run_calls cs (Loose.embed this) = Loose.lift (run_calls cs this).
Proof.
  induction cs as [| [c | value] cs IH]; intros this.
  - reflexivity.
  - cbn [Loose.run_calls run_calls]. unfold Loose.bind, bind.
    rewrite loose_configure_embed.
    destruct (configure c this) as [[[] this'] | e]; cbn [Loose.lift]; [apply IH | reflexivity].
  - cbn [Loose.run_calls run_calls]. unfold Loose.bind at 1, bind at 1.
    rewrite loose_go_embed.
    destruct (go value this) as [[result this'] | e]; cbn [Loose.lift]; [| reflexivity].
    unfold Loose.bind, bind. rewrite IH.
    destruct (run_calls cs this') as [[results this''] | e]; reflexivity.
Qed.

Lemma all_rules_map (slots : list Slot) :
  forallb is_rule slots = true -> exists rs : list StringRule, slots = map Rule rs.
Proof.
  induction slots as [| slot slots IH]; cbn [forallb].
  - intros _. now exists [].
  - intros H. apply andb_true_iff in H as [Hslot Hrest].
    destruct (IH Hrest) as [rs ->].
    destruct slot as [r | | |]; try discriminate Hslot.
    now exists (r :: rs).
Qed.

(** What the validator does on arrays that hold something else. *)
Example loose_array_runs :
  Loose.run_calls [Go (VString "x")] (Loose.constructor (Some [NullSlot]))
    = Throw (TypeError "Cannot read properties of null (reading 'type')") /\
  Loose.run_calls [Configure (CallEquals "a")] (Loose.constructor (Some [UndefinedSlot]))
    = Throw (TypeError "Cannot read properties of undefined (reading 'type')") /\
  Loose.run_calls [Go (VString "x")] (Loose.constructor (Some [Hole; Hole; Hole]))
    = Throw (TypeError "Cannot read properties of undefined (reading 'type')") /\
  Loose.run_calls [Configure CallNotEmpty; Go (VString "x")]
                  (Loose.constructor (Some [Hole; Hole; Hole]))
    = Normal ([Success "x"], Loose.mk (Some [Rule (MinLength (Finite 1))])) /\
  Loose.run_calls [Go (VNumber (Finite 42))] (Loose.constructor (Some [NullSlot]))
    = Normal ([Failure "StringValidator expected a string but received number."],
              Loose.mk (Some [NullSlot])).
Proof. repeat split. Qed.

(** C9, as the claim states it, fails: a validator constructed from the
    array [[null]] throws a [TypeError] when [go] is given a string, so it
    is not the case that every run of constructor, configuration and [go]
    calls completes normally. *)
Lemma null_rule_makes_go_throw :
  Loose.run_calls [Go (VString "x")] (Loose.constructor (Some [NullSlot]))
    = Throw (TypeError "Cannot read properties of null (reading 'type')") /\
  ~ (forall (init : option (list Slot)) (cs : list Call),
        exists out, Loose.run_calls cs (Loose.constructor init) = Normal out).
Proof.
  split; [reflexivity |].
  intros H. destruct (H (Some [NullSlot]) [Go (VString "x")]) as [out E].
  discriminate E.
Qed.

(** C9, amended: the library never throws when the array given to the
    constructor, if any, holds rule objects only.  Then, whatever
    configuration and [go] calls follow, with whatever arguments, the run
    completes normally: each [go] hands back a [Result] (success or failure
    as data), exactly the one the validator over rules returns, and the
    validator still stores an array of rule objects. *)
Theorem never_throws_on_rule_arrays (init : option (list Slot)) (cs : list Call) :
  match init with
  | Some slots => forallb is_rule slots = true
  | None => True
  end ->
  exists (results : list (Result string)) (rs rs' : list StringRule),
    Loose.constructor init = Loose.embed (mk (Some rs)) /\
    run_calls cs (mk (Some rs)) = Normal (results, mk (Some rs')) /\
    Loose.run_calls cs (Loose.constructor init)
      = Normal (results, Loose.mk (Some (map Rule rs'))).
Proof.
  intros Hinit.
  assert (H : exists rs, Loose.constructor init = Loose.embed (mk (Some rs))).
  { destruct init as [slots |].
    - destruct (all_rules_map slots Hinit) as [rs ->]. now exists rs.
    - now exists []. }
  destruct H as [rs Hrs].
  destruct (run_calls_defined cs rs) as [results [rs' Hrun]].
  exists results, rs, rs'. split; [exact Hrs |]. split; [exact Hrun |].
  rewrite Hrs, loose_run_calls_embed, Hrun. reflexivity.
Qed.

Lemma never_throws_on_rule_arrays_witness :
  forallb is_rule [Rule (MaxLength (Finite 3)); Rule (Equal "abc")] = true /\
  exists (results : list (Result string)) (rs rs' : list StringRule),
    Loose.constructor (Some [Rule (MaxLength (Finite 3)); Rule (Equal "abc")])
      = Loose.embed (mk (Some rs)) /\
    run_calls [Go VNull; Configure CallNotEmpty; Go (VString "abcd")] (mk (Some rs))
      = Normal (results, mk (Some rs')) /\
    Loose.run_calls [Go VNull; Configure CallNotEmpty; Go (VString "abcd")]
        (Loose.constructor (Some [Rule (MaxLength (Finite 3)); Rule (Equal "abc")]))
      = Normal (results, Loose.mk (Some (map Rule rs'))).
Proof.
  split; [reflexivity |].
  apply (never_throws_on_rule_arrays
           (Some [Rule (MaxLength (Finite 3)); Rule (Equal "abc")])
           [Go VNull; Configure CallNotEmpty; Go (VString "abcd")]).
  reflexivity.
Defined.

(** * Further properties of the code *)

(** ** What [go] returns on a string *)

Lemma go_loop_none_iff (rs : list StringRule) (s : string) :
  go_loop rs s = None <-> Forall (passes s) rs.
Proof.
  unfold passes. induction rs as [| r rs IH]; cbn [go_loop].
  - split; [constructor | reflexivity].
  - destruct (ok (checkRule r s)) eqn:E; cbn [negb].
    + rewrite IH. split.
      * now constructor.
      * intros H. now inversion H.
    + split; [discriminate |].
      intros H. inversion H; congruence.
Qed.

(** An early return of the loop is the failure of a stored rule. *)
Lemma go_loop_some (rs : list StringRule) (s : string) (result : Result string) :
  go_loop rs s = Some result ->
  exists pre rule post msg,
    rs = (pre ++ rule :: post)%list /\ Forall (passes s) pre /\
    checkRule rule s = Failure msg /\ result = Failure msg.
Proof.
  unfold passes. induction rs as [| r rs IH]; cbn [go_loop]; [discriminate |].
  destruct (ok (checkRule r s)) eqn:E; cbn [negb].
  - intros H. destruct (IH H) as (pre & rule & post & msg & -> & Hpre & Hrule & ->).
    exists (r :: pre), rule, post, msg. repeat split; try assumption.
    now constructor.
  - intros [= <-]. destruct (checkRule r s) as [v | msg] eqn:Hr; [discriminate E |].
    exists [], r, rs, msg. repeat split; first [assumption | constructor].
Qed.

Lemma accepts_iff (rs : list StringRule) (s : string) :
  accepts (mk (Some rs)) s = true <-> Forall (passes s) rs.
Proof.
  unfold accepts. rewrite go_string, <- go_loop_none_iff.
  destruct (go_loop rs s) as [result |] eqn:E.
  - destruct (go_loop_some rs s result E) as (_ & _ & _ & msg & _ & _ & _ & ->).
    cbn [ok]. split; discriminate.
  - cbn [ok]. split; reflexivity.
Qed.

(** X1: on a string, [go] succeeds exactly when every stored rule passes,
    and the success carries that string; this is also exactly when
    [accepts] holds. *)
Theorem go_succeeds_iff_all_pass (rs : list StringRule) (s : string) :
  (go (VString s) (mk (Some rs)) = Normal (Success s, mk (Some rs))
   <-> Forall (passes s) rs) /\
  (accepts (mk (Some rs)) s = true <-> Forall (passes s) rs).
Proof.
  split; [| apply accepts_iff].
  rewrite go_string, <- go_loop_none_iff.
  destruct (go_loop rs s) as [result |] eqn:E.
  - destruct (go_loop_some rs s result E) as (_ & _ & _ & msg & _ & _ & _ & ->).
    split; discriminate.
  - split; reflexivity.
Qed.

(** X2: on a string, [go] either succeeds with it, every rule passing, or
    returns the failure of the first stored rule that does not pass: the
    rules split as [pre ++ rule :: post] with [pre] passing and [rule]
    failing with the returned message. *)
Theorem go_reports_first_failure (rs : list StringRule) (s : string) :
  (Forall (passes s) rs /\
   go (VString s) (mk (Some rs)) = Normal (Success s, mk (Some rs))) \/
  (exists pre rule post msg,
      rs = (pre ++ rule :: post)%list /\
      Forall (passes s) pre /\
      checkRule rule s = Failure msg /\
      go (VString s) (mk (Some rs)) = Normal (Failure msg, mk (Some rs))).
Proof.
  rewrite go_string.
  destruct (go_loop rs s) as [result |] eqn:E.
  - right. destruct (go_loop_some rs s result E)
      as (pre & rule & post & msg & Hrs & Hpre & Hrule & ->).
    exists pre, rule, post, msg. repeat split; assumption.
  - left. split; [now apply go_loop_none_iff | reflexivity].
Qed.

(** X3: a success of [go] always carries the input itself: when [go]
    returns [Success s], the input was the string [s] (no other value ever
    succeeds, and no string is altered), and the validator is unchanged. *)
Theorem go_success_is_input
    (value : JSValue) (this this' : StringValidator.t) (s : string) :
  go value this = Normal (Success s, this') ->
  value = VString s /\ this' = this.
Proof.
  destruct value as [| | b | n | z | s0 | id | id | id]; try discriminate.
  destruct this as [[rs |]].
  - rewrite go_string. destruct (go_loop rs s0) as [result |] eqn:E.
    + destruct (go_loop_some rs s0 result E) as (_ & _ & _ & msg & _ & _ & _ & ->).
      discriminate.
    + intros [= <- <-]. split; reflexivity.
  - cbn. intros [= <- <-]. split; reflexivity.
Qed.

Lemma go_success_is_input_witness :
  go (VString "bar") (mk (Some [MinLength (Finite 1); NotEqual "foo"]))
    = Normal (Success "bar", mk (Some [MinLength (Finite 1); NotEqual "foo"])) /\
  VString "bar" = VString "bar" /\
  mk (Some [MinLength (Finite 1); NotEqual "foo"])
    = mk (Some [MinLength (Finite 1); NotEqual "foo"]).
Proof.
  split; [reflexivity |].
  apply (go_success_is_input (VString "bar")
           (mk (Some [MinLength (Finite 1); NotEqual "foo"]))
           (mk (Some [MinLength (Finite 1); NotEqual "foo"])) "bar").
  reflexivity.
Defined.

(** ** Acceptance and the order of the rules *)

Lemma accepts_incl (rs1 rs2 : list StringRule) (s : string) :
  incl rs1 rs2 -> accepts (mk (Some rs2)) s = true -> accepts (mk (Some rs1)) s = true.
Proof.
  rewrite !accepts_iff, !Forall_forall. intros Hincl H r Hr. apply H, Hincl, Hr.
Qed.

Lemma accepts_same_rules (rs1 rs2 : list StringRule) (s : string) :
  (forall r, In r rs1 <-> In r rs2) ->
  accepts (mk (Some rs1)) s = accepts (mk (Some rs2)) s.
Proof.
  intros H.
  destruct (accepts (mk (Some rs2)) s) eqn:E2.
  - apply (accepts_incl rs1 rs2); [intros r; apply H | exact E2].
  - destruct (accepts (mk (Some rs1)) s) eqn:E1; [| reflexivity].
    rewrite <- E2. symmetry.
    apply (accepts_incl rs2 rs1); [intros r; apply H | exact E1].
Qed.

(** X4: whether a string is accepted depends on which rules are stored, not
    on their order: a validator holding a permutation of the rules accepts
    the same strings (only the reported message can differ). *)
Theorem accepts_permutation (rs1 rs2 : list StringRule) (s : string) :
  Permutation rs1 rs2 ->
  accepts (mk (Some rs1)) s = accepts (mk (Some rs2)) s.
Proof.
  intros H. apply accepts_same_rules. intros r. split.
  - apply Permutation_in. exact H.
  - apply Permutation_in. symmetry. exact H.
Qed.

Lemma accepts_permutation_witness :
  Permutation [MaxLength (Finite 3); NotEqual "abcd"] [NotEqual "abcd"; MaxLength (Finite 3)] /\
  accepts (mk (Some [MaxLength (Finite 3); NotEqual "abcd"])) "abcd"
    = accepts (mk (Some [NotEqual "abcd"; MaxLength (Finite 3)])) "abcd" /\
  go (VString "abcd") (mk (Some [MaxLength (Finite 3); NotEqual "abcd"]))
    = Normal (Failure "String length must be less than or equal to 3 but was 4.",
              mk (Some [MaxLength (Finite 3); NotEqual "abcd"])) /\
  go (VString "abcd") (mk (Some [NotEqual "abcd"; MaxLength (Finite 3)]))
    = Normal (Failure "Value must not be abcd.",
              mk (Some [NotEqual "abcd"; MaxLength (Finite 3)])).
Proof.
  split; [apply perm_swap |].
  split; [| split; reflexivity].
  apply (accepts_permutation [MaxLength (Finite 3); NotEqual "abcd"]
           [NotEqual "abcd"; MaxLength (Finite 3)] "abcd").
  apply perm_swap.
Defined.

(** X5: adding rules can only reject more: when every rule of one validator
    is also stored in another, each string the second accepts is accepted
    by the first. *)
Theorem accepts_antitone (rs1 rs2 : list StringRule) (s : string) :
  incl rs1 rs2 ->
  accepts (mk (Some rs2)) s = true ->
  accepts (mk (Some rs1)) s = true.
Proof. apply accepts_incl. Qed.

Lemma accepts_antitone_witness :
  incl [NotEqual "foo"] [MinLength (Finite 1); NotEqual "foo"] /\
  accepts (mk (Some [MinLength (Finite 1); NotEqual "foo"])) "bar" = true /\
  accepts (mk (Some [NotEqual "foo"])) "bar" = true.
Proof.
  assert (H : incl [NotEqual "foo"] [MinLength (Finite 1); NotEqual "foo"]).
  { intros r [<- | []]. right. now left. }
  split; [exact H |]. split; [reflexivity |].
  apply (accepts_antitone [NotEqual "foo"] [MinLength (Finite 1); NotEqual "foo"] "bar" H).
  reflexivity.
Defined.

(** ** How configuration calls compose *)

Lemma configure_twice (c1 c2 : Config) (rs : list StringRule) :
  kind c1 = kind c2 ->
  (configure c1 ;; configure c2) (mk (Some rs)) = configure c2 (mk (Some rs)).
Proof.
  intros Hk. run_configure. fold (kind c1) (kind c2). rewrite Hk.
  now rewrite rules_not_of_type_replaced.
Qed.

(** X6: a configuration call repeated with the same arguments changes
    nothing: on every validator, calling it twice in a row leaves the state
    that calling it once leaves (and throws exactly when one call does). *)
Theorem configure_idempotent (c : Config) (this : StringValidator.t) :
  (configure c ;; configure c) this = configure c this.
Proof.
  destruct this as [[rs |]].
  - now apply configure_twice.
  - unfold bind. now rewrite configure_undefined.
Qed.

Lemma rules_not_of_type_comm (k1 k2 : RuleType) (rs : list StringRule) :
  rules_not_of_type k1 (rules_not_of_type k2 rs)
  = rules_not_of_type k2 (rules_not_of_type k1 rs).
Proof.
  unfold rules_not_of_type. induction rs as [| r rs IH]; [reflexivity |].
  cbn [filter].
  destruct (RuleType_eqb (type r) k1) eqn:E1, (RuleType_eqb (type r) k2) eqn:E2;
    cbn [negb filter]; rewrite ?E1, ?E2; cbn [negb]; now rewrite IH.
Qed.

Lemma rules_not_of_type_other (k : RuleType) (r : StringRule) :
  type r <> k -> rules_not_of_type k [r] = [r].
Proof.
  intros H. apply rules_not_of_type_absent. cbn [map In]. tauto.
Qed.

(** X7: configuration calls of different kinds commute up to the order of
    the two new rules: both orders keep the stored rules of the other kinds
    in place and end with the two new rules, in call order, so the two
    validators accept the same strings. *)
Theorem configure_commutes (c1 c2 : Config) (rs : list StringRule) :
  kind c1 <> kind c2 ->
  let others := rules_not_of_type (kind c2) (rules_not_of_type (kind c1) rs) in
  (configure c1 ;; configure c2) (mk (Some rs))
    = Normal (tt, mk (Some (others ++ [rule_of c1; rule_of c2])%list)) /\
  (configure c2 ;; configure c1) (mk (Some rs))
    = Normal (tt, mk (Some (others ++ [rule_of c2; rule_of c1])%list)) /\
  Permutation (others ++ [rule_of c1; rule_of c2]) (others ++ [rule_of c2; rule_of c1]) /\
  forall s : string,
    accepts (mk (Some (others ++ [rule_of c1; rule_of c2])%list)) s
    = accepts (mk (Some (others ++ [rule_of c2; rule_of c1])%list)) s.
Proof.
  intros Hk others.
  assert (Hperm : Permutation (others ++ [rule_of c1; rule_of c2])
                              (others ++ [rule_of c2; rule_of c1])).
  { apply Permutation_app_head, perm_swap. }
  split; [| split; [| split]].
  - run_configure. fold (kind c1) (kind c2).
    rewrite rules_not_of_type_app, (rules_not_of_type_other (kind c2)) by exact Hk.
    now rewrite <- app_assoc.
  - run_configure. fold (kind c1) (kind c2).
    rewrite rules_not_of_type_app, (rules_not_of_type_other (kind c1))
      by (intros E; apply Hk; symmetry; exact E).
    unfold others. rewrite (rules_not_of_type_comm (kind c2)).
    now rewrite <- app_assoc.
  - exact Hperm.
  - intros s. apply accepts_same_rules. intros r. split.
    + apply Permutation_in. exact Hperm.
    + apply Permutation_in. symmetry. exact Hperm.
Qed.

Lemma configure_commutes_witness :
  kind CallNotEmpty <> kind (CallNotEquals "foo") /\
  (configure CallNotEmpty ;; configure (CallNotEquals "foo"))
    (mk (Some [NotEqual "x"; MaxLength (Finite 20)]))
  = Normal (tt, mk (Some [MaxLength (Finite 20); MinLength (Finite 1); NotEqual "foo"])).
Proof.
  assert (H : kind CallNotEmpty <> kind (CallNotEquals "foo")) by discriminate.
  split; [exact H |].
  exact (proj1 (configure_commutes CallNotEmpty (CallNotEquals "foo")
                  [NotEqual "x"; MaxLength (Finite 20)] H)).
Defined.

(** ** The state after a chain of calls *)

Lemma configures_cons (k : RuleType) (c : Config) (cs : list Config) :
  configures k (c :: cs) = RuleType_eqb (kind c) k || configures k cs.
Proof. reflexivity. Qed.

Lemma RuleType_eqb_sym (a b : RuleType) : RuleType_eqb a b = RuleType_eqb b a.
Proof. destruct a, b; reflexivity. Qed.

Lemma configure_all_last_calls (cs : list Config) :
  forall rs : list StringRule,
    configure_all cs (mk (Some rs))
    = Normal (tt, mk (Some (filter (fun r => negb (configures (type r) cs)) rs
                            ++ map rule_of (last_calls cs))%list)).
Proof.
  induction cs as [| c cs IH]; intros rs.
  - cbn [configure_all last_calls map configures existsb negb].
    rewrite app_nil_r.
    replace (filter (fun _ : StringRule => true) rs) with rs; [reflexivity |].
    induction rs as [| r rs IHrs]; [reflexivity |]. cbn [filter]. now rewrite <- IHrs.
  - cbn [configure_all]. run_configure. rewrite IH.
    apply (f_equal (fun l => Normal (tt, mk (Some l)))).
    rewrite filter_app, <- app_assoc. f_equal.
    + unfold rules_not_of_type. clear IH.
      induction rs as [| r rs IHrs]; [reflexivity |].
      cbn [filter]. rewrite configures_cons. fold (kind c).
      rewrite (RuleType_eqb_sym (kind c)).
      destruct (RuleType_eqb (type r) (kind c)); cbn [negb orb filter]; [exact IHrs |].
      destruct (configures (type r) cs); cbn [negb]; [exact IHrs | f_equal; exact IHrs].
    + cbn [filter last_calls]. fold (kind c).
      destruct (configures (kind c) cs); reflexivity.
Qed.

(** X8: the last call of each kind wins.  After any chain of configuration
    calls, the validator stores its earlier rules of the kinds that no call
    touched, in their order, followed by one rule for each call that no
    later call of the same kind follows, in call order. *)
Theorem last_call_of_each_kind_wins (cs : list Config) (init : option (list StringRule)) :
  configure_all cs (constructor init)
  = Normal (tt, mk (Some (filter (fun r => negb (configures (type r) cs))
                                 (match init with Some rs => rs | None => [] end)
                          ++ map rule_of (last_calls cs))%list)).
Proof.
  destruct init as [rs |]; apply configure_all_last_calls.
Qed.

Example last_calls_example :
  configure_all [CallMinLength (Finite 3); CallEquals "a"; CallNotEmpty; CallEquals "b"]
                (constructor None)
  = Normal (tt, mk (Some [MinLength (Finite 1); Equal "b"])).
Proof. reflexivity. Qed.

Lemma one_rule_per_type_bound (rs : list StringRule) :
  one_rule_per_type rs -> (length rs <= 4)%nat.
Proof.
  unfold one_rule_per_type. intros H. rewrite <- (length_map type).
  apply (NoDup_incl_length (l' := [Tag.equal; Tag.notEqual; Tag.minLength; Tag.maxLength]) H).
  intros k _. destruct k; cbn; tauto.
Qed.

(** X9: a validator that starts without rules never stores more than four,
    however many configuration calls are made on it. *)
Theorem at_most_four_rules (cs : list Config) :
  exists rs : list StringRule,
    configure_all cs (constructor None) = Normal (tt, mk (Some rs)) /\
    (length rs <= 4)%nat.
Proof.
  destruct (configured_one_rule_per_type None cs I) as [rs [Hrun Hinv]].
  exists rs. split; [exact Hrun | now apply one_rule_per_type_bound].
Qed.

(** X10: what a configuration call does to acceptance.  After the call, a
    string is accepted exactly when the new rule passes and so do the
    stored rules of the other kinds; the rules of the call's kind that were
    stored before no longer count. *)
Theorem accepts_after_configure (c : Config) (rs : list StringRule) (s : string) :
  exists rs' : list StringRule,
    configure c (mk (Some rs)) = Normal (tt, mk (Some rs')) /\
    (accepts (mk (Some rs')) s = true
     <-> passes s (rule_of c) /\ Forall (passes s) (rules_not_of_type (kind c) rs)).
Proof.
  eexists. split; [apply configure_defined |].
  rewrite accepts_iff, Forall_app. fold (kind c). split.
  - intros [H1 H2]. split; [now inversion H2 | exact H1].
  - intros [H1 H2]. split; [exact H2 | now repeat constructor].
Qed.

(** ** Bounds that every string meets, or none *)

(** X11: length bounds are not validated when they are set, and some can
    never fail or never pass: a minimum of zero or less, a [NaN] bound, an
    infinite maximum and a minimum of minus infinity pass every string; a
    negative maximum, an infinite minimum and a maximum of minus infinity
    fail every string. *)
Theorem degenerate_bounds (s : string) :
  (forall z : Z, z <= 0 -> checkRule (MinLength (Finite z)) s = Success s) /\
  (forall z : Z, z < 0 -> fails (MaxLength (Finite z)) s) /\
  checkRule (MinLength NaN) s = Success s /\
  checkRule (MaxLength NaN) s = Success s /\
  checkRule (MaxLength PosInfinity) s = Success s /\
  checkRule (MinLength NegInfinity) s = Success s /\
  fails (MinLength PosInfinity) s /\
  fails (MaxLength NegInfinity) s.
Proof.
  repeat split.
  - intros z Hz. unfold checkRule, str_length, num_lt.
    destruct (Z.ltb_spec (Z.of_nat (String.length s)) z); [lia | reflexivity].
  - intros z Hz. unfold fails, checkRule, str_length, num_gt, num_lt.
    destruct (Z.ltb_spec z (Z.of_nat (String.length s))); [reflexivity | lia].
Qed.

Lemma passes_min_length (a : Z) (s : string) :
  passes s (MinLength (Finite a)) <-> a <= Z.of_nat (String.length s).
Proof.
  unfold passes, checkRule, str_length, num_lt.
  destruct (Z.ltb_spec (Z.of_nat (String.length s)) a); cbn [ok]; split;
    intros; try lia; congruence.
Qed.

Lemma passes_max_length (b : Z) (s : string) :
  passes s (MaxLength (Finite b)) <-> Z.of_nat (String.length s) <= b.
Proof.
  unfold passes, checkRule, str_length, num_gt, num_lt.
  destruct (Z.ltb_spec b (Z.of_nat (String.length s))); cbn [ok]; split;
    intros; try lia; congruence.
Qed.

Lemma passes_equal (v s : string) : passes s (Equal v) <-> s = v.
Proof.
  unfold passes, checkRule.
  destruct (String.eqb_spec v s); cbn [negb ok]; split; congruence.
Qed.

Lemma passes_not_equal (v s : string) : passes s (NotEqual v) <-> s <> v.
Proof.
  unfold passes, checkRule.
  destruct (String.eqb_spec v s); cbn [ok]; split; congruence.
Qed.

(** X12: nothing stops a validator from holding a minimum length above its
    maximum length; such a validator rejects every string. *)
Theorem crossed_bounds_reject_all (rs : list StringRule) (a b : Z) (s : string) :
  In (MinLength (Finite a)) rs ->
  In (MaxLength (Finite b)) rs ->
  b < a ->
  accepts (mk (Some rs)) s = false.
Proof.
  intros Hmin Hmax Hab.
  destruct (accepts (mk (Some rs)) s) eqn:E; [| reflexivity].
  apply accepts_iff in E. rewrite Forall_forall in E.
  apply E, passes_min_length in Hmin. apply E, passes_max_length in Hmax. lia.
Qed.

Lemma crossed_bounds_reject_all_witness :
  (notEmpty ;; empty) (constructor None)
    = Normal (tt, mk (Some [MinLength (Finite 1); MaxLength (Finite 0)])) /\
  accepts (mk (Some [MinLength (Finite 1); MaxLength (Finite 0)])) "" = false.
Proof.
  split; [reflexivity |].
  apply (crossed_bounds_reject_all [MinLength (Finite 1); MaxLength (Finite 0)] 1 0 "").
  - now left.
  - right. now left.
  - lia.
Defined.

(** X13: a stored [equal] rule pins the value: a validator holding
    [Equal v] accepts no string but [v], and accepts none at all when it
    also holds [NotEqual v]. *)
Theorem equal_rule_pins_value (rs : list StringRule) (v s : string) :
  In (Equal v) rs ->
  accepts (mk (Some rs)) s = true ->
  s = v /\ ~ In (NotEqual v) rs.
Proof.
  intros Hin Hacc. apply accepts_iff in Hacc. rewrite Forall_forall in Hacc.
  assert (Hs : s = v) by now apply passes_equal, Hacc.
  split; [exact Hs |].
  intros Hne. apply Hacc, passes_not_equal in Hne. contradiction.
Qed.

Lemma equal_rule_pins_value_witness :
  "abc" = "abc" /\ ~ In (NotEqual "abc") [MaxLength (Finite 5); Equal "abc"].
Proof.
  apply (equal_rule_pins_value [MaxLength (Finite 5); Equal "abc"] "abc" "abc").
  - right. now left.
  - reflexivity.
Defined.

(** ** The script *)

Lemma length_zero_empty (s : string) : String.length s = 0%nat -> s = "".
Proof. destruct s; [reflexivity | discriminate]. Qed.

(** X14: the wrapper [go] of the script prints exactly one line per call
    and leaves the validator as it is.  The line is the value, through
    [console.log], for the strings of 1 to 20 characters other than "foo";
    otherwise it is, through [console.error], the message of the first
    rule that fails: the minimum for the empty string, the maximum for more
    than 20 characters, the inequality for "foo".  The script as a whole
    prints an error for "foo", the value for "bar" and an error for the 24
    characters of its third call. *)
Theorem demo_prints_expected_line :
  exists v : StringValidator.t,
    validator = Normal (tt, v) /\
    (forall (s : string) (out : list Demo.ConsoleLine),
        Demo.go s (Demo.mkWorld v out)
        = Normal (Demo.mkWorld v (out ++ [Demo.expected_line s]))) /\
    Demo.main
    = Normal (Demo.mkWorld v
                [Demo.ConsoleError "Value must not be foo.";
                 Demo.ConsoleLog "String value is valid: bar.";
                 Demo.ConsoleError
                   "String length must be less than or equal to 20 but was 24."]).
Proof.
  exists (mk (Some [MinLength (Finite 1); MaxLength (Finite 20); NotEqual "foo"])).
  split; [reflexivity |]. split; [| reflexivity].
  intros s out. unfold Demo.go, Demo.and_then. cbn [Demo.the_validator Demo.console].
  rewrite go_string. unfold Demo.expected_line.
  destruct (Nat.eqb_spec (String.length s) 0) as [E0 | E0].
  - apply length_zero_empty in E0. subst s. reflexivity.
  - assert (Hmin : checkRule (MinLength (Finite 1)) s = Success s).
    { unfold checkRule, str_length, num_lt.
      destruct (Z.ltb_spec (Z.of_nat (String.length s)) 1); [lia | reflexivity]. }
    cbn [go_loop]. rewrite Hmin. cbn [ok negb].
    destruct (Nat.ltb_spec 20 (String.length s)) as [H20 | H20].
    + assert (Hmax : checkRule (MaxLength (Finite 20)) s
                     = Failure ("String length must be less than or equal to 20 but was "
                                ++ num_to_string (str_length s) ++ ".")).
      { unfold checkRule, num_gt, num_lt, str_length.
        destruct (Z.ltb_spec 20 (Z.of_nat (String.length s))); [reflexivity | lia]. }
      rewrite Hmax. reflexivity.
    + assert (Hmax : checkRule (MaxLength (Finite 20)) s = Success s).
      { unfold checkRule, num_gt, num_lt, str_length.
        destruct (Z.ltb_spec 20 (Z.of_nat (String.length s))); [lia | reflexivity]. }
      rewrite Hmax. cbn [ok negb]. unfold checkRule.
      rewrite (String.eqb_sym "foo" s).
      destruct (String.eqb s "foo"); reflexivity.
Qed.

(** ** Chains and their last calls *)

Lemma configures_in (k : RuleType) (cs : list Config) :
  configures k cs = true <-> In k (map kind cs).
Proof.
  unfold configures. rewrite existsb_exists, in_map_iff. split.
  - intros [c [Hin Heq]]. apply RuleType_eqb_eq in Heq. eauto.
  - intros [c [Heq Hin]]. exists c. split; [exact Hin | now apply RuleType_eqb_eq].
Qed.

Lemma last_calls_incl (cs : list Config) (c : Config) :
  In c (last_calls cs) -> In c cs.
Proof.
  induction cs as [| c0 cs IH]; cbn [last_calls]; [tauto |].
  destruct (configures (kind c0) cs); cbn [In]; tauto.
Qed.

Lemma last_calls_distinct (cs : list Config) : NoDup (map kind (last_calls cs)).
Proof.
  induction cs as [| c cs IH]; cbn [last_calls]; [constructor |].
  destruct (configures (kind c) cs) eqn:E; [exact IH |].
  cbn [map]. constructor; [| exact IH].
  intros Hin. apply in_map_iff in Hin as [c' [Heq Hin]].
  apply last_calls_incl in Hin.
  assert (H : configures (kind c) cs = true).
  { apply configures_in. rewrite <- Heq. now apply in_map. }
  congruence.
Qed.

(** X15: only the last call of each kind matters.  On a fresh validator a
    chain of configuration calls leaves the same state as the chain without
    the calls that a later call of the same kind overrides, and that
    shorter chain has no two calls of one kind. *)
Theorem overridden_calls_are_void (cs : list Config) :
  configure_all cs (constructor None) = configure_all (last_calls cs) (constructor None) /\
  NoDup (map kind (last_calls cs)) /\
  incl (last_calls cs) cs.
Proof.
  split; [| split].
  - unfold constructor. rewrite configure_all_last_calls.
    rewrite (configure_all_distinct (last_calls cs) []).
    + reflexivity.
    + apply last_calls_distinct.
    + intros k _ [].
  - apply last_calls_distinct.
  - intros c. apply last_calls_incl.
Qed.

(** ** Evaluation between configuration calls *)

Lemma run_calls_state (cs : list Call) :
  forall rs : list StringRule,
    state_after (run_calls cs (mk (Some rs)))
    = state_after (configure_all (configs_of cs) (mk (Some rs))).
Proof.
  induction cs as [| [c | value] cs IH]; intros rs.
  - reflexivity.
  - cbn [run_calls configs_of configure_all]. run_configure. apply IH.
  - cbn [run_calls configs_of]. unfold bind at 1.
    destruct (go_frame value (mk (Some rs))) as [result ->].
    unfold bind. specialize (IH rs).
    destruct (run_calls cs (mk (Some rs))) as [[results this] | e]; exact IH.
Qed.

(** X16: calls of [go] never interfere with configuration: whatever [go]
    calls a client makes between its configuration calls, the validator
    ends in the state that the configuration calls alone produce. *)
Theorem go_calls_leave_no_trace (cs : list Call) (init : option (list StringRule)) :
  state_after (run_calls cs (constructor init))
  = state_after (configure_all (configs_of cs) (constructor init)).
Proof.
  destruct init as [rs |]; apply run_calls_state.
Qed.
